(** * VOICEVOX engine: character metadata models and the character router

    A shallow embedding of
    - [voicevox_engine/metas/Metas.py] (the pydantic models), and
    - [voicevox_engine/app/routers/character.py] (the five route handlers),
    together with models of the three collaborators the router receives
    ([CoreManager], [MetasStore], [ResourceManager]). *)

From Stdlib Require Import ZArith String List Lia.
From stdpp Require Import base option list gmap strings pretty.

Local Open Scope string_scope.

(** ** voicevox_engine/metas/Metas.py *)

Definition StyleId : Type := Z.

(** [StyleType = Literal["talk", "singing_teacher", "frame_decode", "sing"]] *)
Inductive StyleType : Type :=
| ST_talk
| ST_singing_teacher
| ST_frame_decode
| ST_sing.

Definition StyleType_literal (t : StyleType) : string :=
  match t with
  | ST_talk => "talk"
  | ST_singing_teacher => "singing_teacher"
  | ST_frame_decode => "frame_decode"
  | ST_sing => "sing"
  end.

Definition StyleType_literals : list string :=
  ["talk"; "singing_teacher"; "frame_decode"; "sing"].

(** Validation of a raw value against the [Literal] type. *)
Definition StyleType_validate (raw : string) : option StyleType :=
  if String.eqb raw "talk" then Some ST_talk
  else if String.eqb raw "singing_teacher" then Some ST_singing_teacher
  else if String.eqb raw "frame_decode" then Some ST_frame_decode
  else if String.eqb raw "sing" then Some ST_sing
  else None.

Record SpeakerStyle : Type := mkSpeakerStyle {
  style_name : string;
  style_id : StyleId;
  style_type : StyleType
}.

(** [class SpeakerStyle(BaseModel)]: [name] and [id] are required, [type]
    has [default="talk"].  The constructor receives the keyword argument
    [type] or not ([None] here); a value outside the literal is rejected. *)
Definition SpeakerStyle_default_type : StyleType := ST_talk.

Definition SpeakerStyle_init (name : string) (id : StyleId) (type : option string)
  : option SpeakerStyle :=
  match type with
  | None => Some (mkSpeakerStyle name id SpeakerStyle_default_type)
  | Some raw =>
      match StyleType_validate raw with
      | Some t => Some (mkSpeakerStyle name id t)
      | None => None
      end
  end.

(** [permitted_synthesis_morphing: Literal["ALL", "SELF_ONLY", "NOTHING"]] *)
Inductive SynthesisMorphing : Type := ALL | SELF_ONLY | NOTHING.

Record SpeakerSupportedFeatures : Type := mkSpeakerSupportedFeatures {
  permitted_synthesis_morphing : SynthesisMorphing
}.

Definition SpeakerSupportedFeatures_default : SpeakerSupportedFeatures :=
  mkSpeakerSupportedFeatures ALL.

Record Speaker : Type := mkSpeaker {
  speaker_name : string;
  speaker_uuid : string;
  styles : list SpeakerStyle;
  speaker_version : string;
  speaker_supported_features : SpeakerSupportedFeatures
}.

Record StyleInfo : Type := mkStyleInfo {
  info_id : StyleId;
  icon : string;
  info_portrait : option string;
  voice_samples : list string
}.

Record SpeakerInfo : Type := mkSpeakerInfo {
  policy : string;
  portrait : string;
  style_infos : list StyleInfo
}.

(** ** Types the router imports from [MetasStore] and the core *)

(** Modelled from the spec: the [Character] type of [MetasStore] (section 3,
    "Character": uuid, name, version, supported features and the two ordered
    style sequences).  The router reads exactly these six attributes. *)
Record Character : Type := mkCharacter {
  name : string;
  uuid : string;
  talk_styles : list SpeakerStyle;
  sing_styles : list SpeakerStyle;
  version : string;
  supported_features : SpeakerSupportedFeatures
}.

(** Modelled from the spec: [ResourceFormat], the literal type with the two
    values [base64] and [url] (section 3, "Resolved resource reference"). *)
Inductive ResourceFormat : Type := base64 | url.

(** The literal passed as [talk_or_sing]. *)
Inductive TalkOrSing : Type := cap_talk | cap_sing.

(** Modelled from the spec: a loaded core exposes an immutable character
    list and a version identifier (section 6); the router reads
    [core.characters]. *)
Record Core : Type := mkCore {
  loaded_version : string;
  characters : list Character
}.

Definition bytes : Type := list Byte.byte.

#[global] Instance StyleType_eq_dec : EqDecision StyleType.
Proof. solve_decision. Defined.
#[global] Instance SpeakerStyle_eq_dec : EqDecision SpeakerStyle.
Proof. solve_decision. Defined.
#[global] Instance SynthesisMorphing_eq_dec : EqDecision SynthesisMorphing.
Proof. solve_decision. Defined.
#[global] Instance SpeakerSupportedFeatures_eq_dec : EqDecision SpeakerSupportedFeatures.
Proof. solve_decision. Defined.
#[global] Instance Character_eq_dec : EqDecision Character.
Proof. solve_decision. Defined.
#[global] Instance TalkOrSing_eq_dec : EqDecision TalkOrSing.
Proof. solve_decision. Defined.
#[global] Instance ResourceFormat_eq_dec : EqDecision ResourceFormat.
Proof. solve_decision. Defined.

(** ** Exceptions, the call log and the handler monad *)

Inductive Exception : Type :=
| UnknownVersion
| UnknownCharacter
| AssetUnreadable
| ResourceManagerError
| HTTPException (status_code : Z).

Inductive Result (A : Type) : Type :=
| Ok (a : A)
| Raise (e : Exception).
Arguments Ok {A} a.
Arguments Raise {A} e.

(** One entry per method call on a collaborator, with its arguments, in
    call order.  The log is ghost state: it lets the order of the calls a
    handler makes be stated. *)
Inductive Call : Type :=
| CallLatestVersion
| CallGetCore (version : string)
| CallTalkCharacters (core_characters : list Character)
| CallSingCharacters (core_characters : list Character)
| CallCharacterInfo (character_uuid : string) (talk_or_sing : TalkOrSing)
    (core_characters : list Character) (resource_baseurl : string)
    (resource_format : ResourceFormat)
| CallResourcePath (filehash : string).

(** The process-wide mutable state: the call log and the resource
    manager's hash-to-path map. *)
Record World : Type := mkWorld {
  calls : list Call;
  hash_to_path : gmap string string
}.

(** A handler runs on a world and ends in a value or a raised exception;
    state changes made before a raise stay. *)
Definition M (A : Type) : Type := World -> Result A * World.

Definition ret {A : Type} (a : A) : M A := fun w => (Ok a, w).

Definition raise {A : Type} (e : Exception) : M A := fun w => (Raise e, w).

Definition bind {A B : Type} (m : M A) (k : A -> M B) : M B :=
  fun w =>
    match m w with
    | (Ok a, w') => k a w'
    | (Raise e, w') => (Raise e, w')
    end.

(** [try: m  except E: handler] with the handler choosing by exception. *)
Definition try_except {A : Type} (m : M A) (handler : Exception -> M A) : M A :=
  fun w =>
    match m w with
    | (Ok a, w') => (Ok a, w')
    | (Raise e, w') => handler e w'
    end.

Definition log_call (c : Call) : M unit :=
  fun w => (Ok tt, mkWorld (calls w ++ [c]) (hash_to_path w)).

Notation "'let*' x ':=' c 'in' k" := (bind c (fun x => k))
  (at level 10, x name, c at level 100, k at level 200).

Fixpoint mapM {A B : Type} (f : A -> M B) (l : list A) : M (list B) :=
  match l with
  | [] => ret []
  | a :: l' =>
      let* b := f a in
      let* bs := mapM f l' in
      ret (b :: bs)
  end.

(** The world after the calls [cs] were logged. *)
Definition log_extend (w : World) (cs : list Call) : World :=
  mkWorld (calls w ++ cs) (hash_to_path w).

(** A handler that returns, and leaves the call log alone. *)
Definition returns_quietly {A : Type} (m : M A) : Prop :=
  forall w, exists a w', m w = (Ok a, w') /\ calls w' = calls w.

(** ** The collaborators, as the router sees them *)

(** [voicevox_engine.core.core_initializer.CoreManager] *)
Record CoreManager : Type := mkCoreManager {
  latest_version : M string;
  get_core : string -> M Core
}.

(** [voicevox_engine.metas.MetasStore.MetasStore] *)
Record MetasStore : Type := mkMetasStore {
  talk_characters : list Character -> M (list Character);
  sing_characters : list Character -> M (list Character);
  character_info :
    string -> TalkOrSing -> list Character -> string -> ResourceFormat ->
    M SpeakerInfo
}.

(** [voicevox_engine.resource_manager.ResourceManager] *)
Record ResourceManager : Type := mkResourceManager {
  resource_path : string -> M string
}.

(** ** voicevox_engine/app/routers/character.py *)

Definition RESOURCE_ENDPOINT : string := "_resources".

Record Request : Type := mkRequest {
  url_scheme : string;
  url_netloc : string
}.

Definition _get_resource_baseurl (request : Request) : string :=
  url_scheme request +:+ "://" +:+ url_netloc request +:+ "/" +:+ RESOURCE_ENDPOINT.

Definition _characters_to_speakers (characters : list Character) : list Speaker :=
  map
    (fun character =>
       {| speaker_name := name character;
          speaker_uuid := uuid character;
          styles := talk_styles character ++ sing_styles character;
          speaker_version := version character;
          speaker_supported_features := supported_features character |})
    characters.

(** Python truthiness of [str | None]: [None] and the empty string are
    falsy. *)
Definition truthy (core_version : option string) : bool :=
  match core_version with
  | None => false
  | Some s => negb (String.eqb s "")
  end.

(** [core_version or default]: the right operand is evaluated only when the
    left one is falsy. *)
Definition or_else (core_version : option string) (default : M string) : M string :=
  match core_version with
  | Some s => if truthy (Some s) then ret s else default
  | None => default
  end.

(** [FileResponse(path, headers=...)] as the handler builds it: the path
    and the headers the handler passes.  What the framework adds when it
    sends the file is not part of this record. *)
Record FileResponse : Type := mkFileResponse {
  path : string;
  headers : list (string * string)
}.

Section generate_character_router.

Variable core_manager : CoreManager.
Variable resource_manager : ResourceManager.
Variable metas_store : MetasStore.

Definition speakers (core_version : option string) : M (list Speaker) :=
  let* version := or_else core_version (latest_version core_manager) in
  let* core := get_core core_manager version in
  let* characters := talk_characters metas_store (characters core) in
  ret (_characters_to_speakers characters).

Definition speaker_info (resource_baseurl : string) (speaker_uuid : string)
    (resource_format : option ResourceFormat) (core_version : option string)
  : M SpeakerInfo :=
  let resource_format := default base64 resource_format in
  let* version := or_else core_version (latest_version core_manager) in
  let* core := get_core core_manager version in
  character_info metas_store speaker_uuid cap_talk (characters core)
    resource_baseurl resource_format.

Definition singers (core_version : option string) : M (list Speaker) :=
  let* version := or_else core_version (latest_version core_manager) in
  let* core := get_core core_manager version in
  let* characters := sing_characters metas_store (characters core) in
  ret (_characters_to_speakers characters).

Definition singer_info (resource_baseurl : string) (speaker_uuid : string)
    (resource_format : option ResourceFormat) (core_version : option string)
  : M SpeakerInfo :=
  let resource_format := default base64 resource_format in
  let* version := or_else core_version (latest_version core_manager) in
  let* core := get_core core_manager version in
  character_info metas_store speaker_uuid cap_sing (characters core)
    resource_baseurl resource_format.

Definition resources (resource_hash : string) : M FileResponse :=
  let* resource_path :=
    try_except (resource_path resource_manager resource_hash)
      (fun e =>
         match e with
         | ResourceManagerError => raise (HTTPException 404%Z)
         | _ => raise e
         end) in
  ret {| path := resource_path;
         headers := [("Cache-Control", "max-age=2592000")] |}.

End generate_character_router.

(** The first two statements of each of the four query handlers: choose
    the version, then fetch its core. *)
Definition core_of_query (core_manager : CoreManager)
    (core_version : option string) : M Core :=
  let* version := or_else core_version (latest_version core_manager) in
  get_core core_manager version.

(** ** The core registry *)

(** Modelled from the spec: the Core Registry of section 4.1, of module
    [voicevox_engine.core.core_initializer].  It tracks one or more
    loaded cores; [resolve] of an absent version gives the core of the
    maximum loaded version for the registry's order, and a version that
    matches no loaded core fails with [UnknownVersion]. *)
Record CoreRegistry : Type := mkCoreRegistry {
  first_core : Core;
  more_cores : list Core
}.

Definition loaded_cores (r : CoreRegistry) : list Core :=
  first_core r :: more_cores r.

Definition loaded_versions (r : CoreRegistry) : list string :=
  map loaded_version (loaded_cores r).

Section CoreRegistry.

(** The registry's order over version strings. *)
Variable version_leb : string -> string -> bool.

Definition later_version (a b : string) : string :=
  if version_leb a b then b else a.

Definition registry_latest (r : CoreRegistry) : string :=
  fold_left later_version
    (map loaded_version (more_cores r)) (loaded_version (first_core r)).

Definition registry_resolve (r : CoreRegistry) (v : string) : option Core :=
  List.find (fun c => String.eqb (loaded_version c) v) (loaded_cores r).

Definition spec_core_manager (r : CoreRegistry) : CoreManager :=
  {| latest_version :=
       let* _ := log_call CallLatestVersion in
       ret (registry_latest r);
     get_core v :=
       let* _ := log_call (CallGetCore v) in
       match registry_resolve r v with
       | Some c => ret c
       | None => raise UnknownVersion
       end |}.

End CoreRegistry.

(** ** The resource store *)

Section ResourceStore.

(** The content hash and the files on disk (path to content). *)
Variable content_hash : bytes -> string.
Variable files : gmap string bytes.

(** Modelled from the spec: [register] of section 4.2, of module
    [voicevox_engine.resource_manager].  The handle is computed
    from the content; an unreadable file fails with [AssetUnreadable];
    the map only grows and never updates an existing entry. *)
Definition register (file_path : string) : M string :=
  fun w =>
    match files !! file_path with
    | None => (Raise AssetUnreadable, w)
    | Some content =>
        let handle := content_hash content in
        let store :=
          match hash_to_path w !! handle with
          | Some _ => hash_to_path w
          | None => <[handle := file_path]> (hash_to_path w)
          end in
        (Ok handle, mkWorld (calls w) store)
    end.

(** The handles issued by registering [paths] in turn, and the world
    after that.  A failed registration issues nothing. *)
Fixpoint register_each (paths : list string) (w : World) : list string * World :=
  match paths with
  | [] => ([], w)
  | p :: ps =>
      match register p w with
      | (Ok handle, w') =>
          let '(handles, w'') := register_each ps w' in
          (handle :: handles, w'')
      | (Raise _, w') => register_each ps w'
      end
  end.

End ResourceStore.

(** Modelled from the spec: [resolve] of section 4.2, a pure map lookup
    that fails for a handle that was never registered.  The spec's
    [UnknownResource] is the [ResourceManagerError] the router imports. *)
Definition resolve (handle : string) : M string :=
  fun w =>
    match hash_to_path w !! handle with
    | Some file_path => (Ok file_path, w)
    | None => (Raise ResourceManagerError, w)
    end.

Definition spec_resource_manager : ResourceManager :=
  {| resource_path filehash :=
       let* _ := log_call (CallResourcePath filehash) in
       resolve filehash |}.

(** What a [FileResponse] sends: the bytes of the file at its path. *)
Definition FileResponse_body (files : gmap string bytes) (r : FileResponse)
  : option bytes :=
  files !! path r.

(** The [max-age] of a [Cache-Control] header, in seconds. *)
Definition cache_max_age (r : FileResponse) : option string :=
  match List.find (fun h => String.eqb (fst h) "Cache-Control") (headers r) with
  | Some (_, v) =>
      if String.prefix "max-age=" v
      then Some (String.substring 8 (String.length v - 8) v)
      else None
  | None => None
  end.

Definition seconds_of_days (d : N) : N := (d * 24 * 60 * 60)%N.

(** ** The metadata resolver *)

Record StyleAssets : Type := mkStyleAssets {
  icon_path : string;
  portrait_path : option string;
  voice_sample_paths : list string
}.

(** The assets found on disk at start-up: per character the policy text
    and the portrait file, per style the icon, the optional portrait and
    the voice samples. *)
Record AssetCatalogue : Type := mkAssetCatalogue {
  policy_of : string -> string;
  portrait_path_of : string -> string;
  style_assets : StyleId -> StyleAssets
}.

Definition has_styles (talk_or_sing : TalkOrSing) (c : Character) : bool :=
  match talk_or_sing with
  | cap_talk => negb (Nat.eqb (length (talk_styles c)) 0)
  | cap_sing => negb (Nat.eqb (length (sing_styles c)) 0)
  end.

Definition capability_styles (talk_or_sing : TalkOrSing) (c : Character)
  : list SpeakerStyle :=
  match talk_or_sing with
  | cap_talk => talk_styles c
  | cap_sing => sing_styles c
  end.

(** Modelled from the spec: [list_characters] of section 4.3 (module
    [voicevox_engine.metas.MetasStore]): the characters having at least one style for
    the capability, in the core's order, each left whole. *)
Definition list_characters (talk_or_sing : TalkOrSing)
    (core_characters : list Character) : list Character :=
  List.filter (has_styles talk_or_sing) core_characters.

(** A file the resolver can read. *)
Definition readable (files : gmap string bytes) (file_path : string) : Prop :=
  is_Some (files !! file_path).

Section MetadataResolver.

Variable content_hash : bytes -> string.
Variable files : gmap string bytes.
Variable b64encode : bytes -> string.
Variable assets : AssetCatalogue.

(** Modelled from the spec: resolution of one resource reference
    (section 4.3): inline base64 of the file's bytes, or registration
    with the resource store and a URL made of the base URL and the
    handle. *)
Definition resolve_resource (resource_baseurl : string)
    (resource_format : ResourceFormat) (file_path : string) : M string :=
  match resource_format with
  | base64 =>
      match files !! file_path with
      | Some content => ret (b64encode content)
      | None => raise AssetUnreadable
      end
  | url =>
      let* handle := register content_hash files file_path in
      ret (resource_baseurl +:+ "/" +:+ handle)
  end.

Definition style_detail (resource_baseurl : string)
    (resource_format : ResourceFormat) (style : SpeakerStyle) : M StyleInfo :=
  let a := style_assets assets (style_id style) in
  let* icon := resolve_resource resource_baseurl resource_format (icon_path a) in
  let* portrait :=
    match portrait_path a with
    | None => ret None
    | Some p =>
        let* r := resolve_resource resource_baseurl resource_format p in
        ret (Some r)
    end in
  let* voice_samples :=
    mapM (resolve_resource resource_baseurl resource_format)
      (voice_sample_paths a) in
  ret {| info_id := style_id style; icon := icon;
         info_portrait := portrait; voice_samples := voice_samples |}.

(** Modelled from the spec: [character_detail] of section 4.3: the lookup
    is by uuid among the characters having styles for the capability;
    the style details are those of the capability's own styles. *)
Definition character_detail (character_uuid : string)
    (talk_or_sing : TalkOrSing) (core_characters : list Character)
    (resource_baseurl : string) (resource_format : ResourceFormat)
  : M SpeakerInfo :=
  match
    List.find (fun c => String.eqb (uuid c) character_uuid)
      (list_characters talk_or_sing core_characters)
  with
  | None => raise UnknownCharacter
  | Some c =>
      let* portrait :=
        resolve_resource resource_baseurl resource_format
          (portrait_path_of assets (uuid c)) in
      let* style_infos :=
        mapM (style_detail resource_baseurl resource_format)
          (capability_styles talk_or_sing c) in
      ret {| policy := policy_of assets (uuid c); portrait := portrait;
             style_infos := style_infos |}
  end.

Definition spec_metas_store : MetasStore :=
  {| talk_characters core_characters :=
       let* _ := log_call (CallTalkCharacters core_characters) in
       ret (list_characters cap_talk core_characters);
     sing_characters core_characters :=
       let* _ := log_call (CallSingCharacters core_characters) in
       ret (list_characters cap_sing core_characters);
     character_info character_uuid talk_or_sing core_characters
         resource_baseurl resource_format :=
       let* _ :=
         log_call (CallCharacterInfo character_uuid talk_or_sing
                     core_characters resource_baseurl resource_format) in
       character_detail character_uuid talk_or_sing core_characters
         resource_baseurl resource_format |}.

(** The files a detail query for [c] under a capability reads. *)
Definition style_asset_paths (style : SpeakerStyle) : list string :=
  let a := style_assets assets (style_id style) in
  icon_path a :: option_list (portrait_path a) ++ voice_sample_paths a.

Definition detail_asset_paths (talk_or_sing : TalkOrSing) (c : Character)
  : list string :=
  portrait_path_of assets (uuid c)
  :: concat (map style_asset_paths (capability_styles talk_or_sing c)).

End MetadataResolver.

(** ** Sample data, used to run the handlers *)

Definition normal_style : SpeakerStyle := mkSpeakerStyle "Normal" 0%Z ST_talk.

Definition song_style : SpeakerStyle := mkSpeakerStyle "Song" 7%Z ST_sing.

Definition abc : Character :=
  {| name := "Abc"; uuid := "abc"; talk_styles := [normal_style];
     sing_styles := []; version := "1.0.0";
     supported_features := SpeakerSupportedFeatures_default |}.

Definition duo : Character :=
  {| name := "Duo"; uuid := "duo"; talk_styles := [normal_style];
     sing_styles := [song_style]; version := "1.0.0";
     supported_features := SpeakerSupportedFeatures_default |}.

Definition core_0_1 : Core := mkCore "0.1.0" [abc].

Definition core_0_2 : Core := mkCore "0.2.0" [abc; duo].

Definition sample_registry : CoreRegistry := mkCoreRegistry core_0_1 [core_0_2].

Definition empty_world : World := mkWorld [] ∅.

Definition sample_hash (content : bytes) : string :=
  "h-" +:+ string_of_list_byte content.

Definition sample_b64encode (content : bytes) : string :=
  "b64-" +:+ string_of_list_byte content.

Definition sample_files : gmap string bytes :=
  <["abc/portrait.png" := [Byte.x50; Byte.x4e; Byte.x47]]>
    (<["icons/0.png" := [Byte.x69; Byte.x30]]>
       (<["samples/0.wav" := [Byte.x52; Byte.x49; Byte.x46; Byte.x46]]> ∅)).

Definition sample_assets : AssetCatalogue :=
  {| policy_of u := "policy of " +:+ u;
     portrait_path_of u := u +:+ "/portrait.png";
     style_assets id :=
       {| icon_path := "icons/" +:+ pretty id +:+ ".png";
          portrait_path := None;
          voice_sample_paths := ["samples/" +:+ pretty id +:+ ".wav"] |} |}.

Definition sample_metas_store : MetasStore :=
  spec_metas_store sample_hash sample_files sample_b64encode sample_assets.

Definition sample_core_manager : CoreManager :=
  spec_core_manager String.leb sample_registry.

Definition sample_baseurl : string :=
  _get_resource_baseurl (mkRequest "http" "127.0.0.1:50021").

(** ** Notions used to state what the handlers keep *)

(** The path of the resource route,
    [f"/{RESOURCE_ENDPOINT}/{{resource_hash}}"]. *)
Definition resources_route (resource_hash : string) : string :=
  "/" +:+ RESOURCE_ENDPOINT +:+ "/" +:+ resource_hash.

(** [m] keeps the property [I] of the world, whether it returns or
    raises. *)
Definition preserves {A : Type} (I : World -> Prop) (m : M A) : Prop :=
  forall w r w', I w -> m w = (r, w') -> I w'.

(** Collaborators that touch nothing: a core manager with one core, a
    metadata store that lists every character and knows no detail, and a
    resource manager that knows no hash. *)
Definition still_core_manager : CoreManager :=
  {| latest_version := ret "0.1.0"; get_core _ := ret core_0_1 |}.

Definition still_metas_store : MetasStore :=
  {| talk_characters cs := ret cs;
     sing_characters cs := ret cs;
     character_info _ _ _ _ _ := raise UnknownCharacter |}.

Definition still_resource_manager : ResourceManager :=
  {| resource_path _ := raise ResourceManagerError |}.

(** ** Proof support *)

Lemma bind_Ok {A B} (m : M A) (k : A -> M B) w a w' :
  m w = (Ok a, w') -> bind m k w = k a w'.
Proof. intros H. unfold bind. now rewrite H. Qed.

Lemma bind_Raise {A B} (m : M A) (k : A -> M B) w e w' :
  m w = (Raise e, w') -> bind m k w = (Raise e, w').
Proof. intros H. unfold bind. now rewrite H. Qed.

Lemma bind_inv_Ok {A B} (m : M A) (k : A -> M B) w b w' :
  bind m k w = (Ok b, w') ->
  exists a w1, m w = (Ok a, w1) /\ k a w1 = (Ok b, w').
Proof.
  unfold bind. destruct (m w) as [[a|e] w1]; intros H.
  - now exists a, w1.
  - discriminate.
Qed.

Lemma speakers_steps cm ms v w :
  speakers cm ms v w =
  bind (core_of_query cm v)
    (fun core => let* cs := talk_characters ms (characters core) in
                 ret (_characters_to_speakers cs)) w.
Proof.
  unfold speakers, core_of_query, bind.
  destruct (or_else v (latest_version cm) w) as [[ver|e] w1]; [|reflexivity].
  destruct (get_core cm ver w1) as [[core|e] w2]; reflexivity.
Qed.

Lemma singers_steps cm ms v w :
  singers cm ms v w =
  bind (core_of_query cm v)
    (fun core => let* cs := sing_characters ms (characters core) in
                 ret (_characters_to_speakers cs)) w.
Proof.
  unfold singers, core_of_query, bind.
  destruct (or_else v (latest_version cm) w) as [[ver|e] w1]; [|reflexivity].
  destruct (get_core cm ver w1) as [[core|e] w2]; reflexivity.
Qed.

Lemma speaker_info_steps cm ms baseurl u fmt v w :
  speaker_info cm ms baseurl u fmt v w =
  bind (core_of_query cm v)
    (fun core => character_info ms u cap_talk (characters core) baseurl
                   (default base64 fmt)) w.
Proof.
  unfold speaker_info, core_of_query, bind.
  destruct (or_else v (latest_version cm) w) as [[ver|e] w1]; [|reflexivity].
  destruct (get_core cm ver w1) as [[core|e] w2]; reflexivity.
Qed.

Lemma singer_info_steps cm ms baseurl u fmt v w :
  singer_info cm ms baseurl u fmt v w =
  bind (core_of_query cm v)
    (fun core => character_info ms u cap_sing (characters core) baseurl
                   (default base64 fmt)) w.
Proof.
  unfold singer_info, core_of_query, bind.
  destruct (or_else v (latest_version cm) w) as [[ver|e] w1]; [|reflexivity].
  destruct (get_core cm ver w1) as [[core|e] w2]; reflexivity.
Qed.

Lemma StyleType_validate_literal raw t :
  StyleType_validate raw = Some t -> StyleType_literal t = raw.
Proof.
  unfold StyleType_validate.
  repeat match goal with
    | |- context [String.eqb raw ?s] =>
        destruct (String.eqb_spec raw s) as [->|_]
    end; intros [= <-]; reflexivity.
Qed.

Lemma StyleType_literal_listed t : In (StyleType_literal t) StyleType_literals.
Proof. destruct t; simpl; auto. Qed.

(** ** The models of Metas.py *)

(** C10: a [SpeakerStyle] built without a [type] argument has type [talk];
    a style built with one carries exactly that literal, so every style
    that passes validation carries one of the four literals, and every
    value of the model does. *)
Theorem SpeakerStyle_type_default_talk :
  (forall name id,
     SpeakerStyle_init name id None = Some (mkSpeakerStyle name id ST_talk)) /\
  (forall name id type s,
     SpeakerStyle_init name id type = Some s ->
     style_name s = name /\ style_id s = id /\
     In (StyleType_literal (style_type s)) StyleType_literals /\
     match type with
     | None => style_type s = ST_talk
     | Some raw => StyleType_literal (style_type s) = raw
     end) /\
  (forall s : SpeakerStyle,
     In (style_type s) [ST_talk; ST_singing_teacher; ST_frame_decode; ST_sing]).
Proof.
  split; [reflexivity | split].
  - intros name id [raw|] s; simpl.
    + destruct (StyleType_validate raw) as [t|] eqn:Hv; [|discriminate].
      intros [= <-]. cbn [style_name style_id style_type].
      split; [reflexivity|]. split; [reflexivity|].
      split; [apply StyleType_literal_listed|].
      now apply StyleType_validate_literal.
    + intros [= <-]. cbn [style_name style_id style_type].
      split; [reflexivity|]. split; [reflexivity|].
      split; [apply StyleType_literal_listed | reflexivity].
  - intros [n i []]; simpl; auto.
Qed.

Lemma SpeakerStyle_type_default_talk_witness :
  SpeakerStyle_init "Normal" 0%Z None = Some normal_style /\
  style_type normal_style = ST_talk /\
  SpeakerStyle_init "Song" 7%Z (Some "sing") = Some song_style /\
  StyleType_literal (style_type song_style) = "sing" /\
  SpeakerStyle_init "Song" 7%Z (Some "shout") = None.
Proof.
  destruct SpeakerStyle_type_default_talk as [_ [H _]].
  split; [reflexivity|].
  split; [exact (proj2 (proj2 (proj2 (H "Normal" 0%Z None normal_style eq_refl))))|].
  split; [reflexivity|].
  split; [exact (proj2 (proj2 (proj2 (H "Song" 7%Z (Some "sing") song_style eq_refl))))|].
  reflexivity.
Defined.

(** ** The listing handlers *)

(** C1: every entry [speakers] and [singers] return is the projection of
    a character the metadata store handed back, and its [styles] are that
    character's [talk_styles] followed by its [sing_styles], whichever of
    the two handlers ran. *)
Theorem listing_styles_are_talk_then_sing :
  (forall cs : list Character,
     map styles (_characters_to_speakers cs)
     = map (fun c => (talk_styles c ++ sing_styles c)%list) cs) /\
  (forall cm ms core_version w l w',
     speakers cm ms core_version w = (Ok l, w') ->
     exists core w1 cs,
       core_of_query cm core_version w = (Ok core, w1) /\
       talk_characters ms (characters core) w1 = (Ok cs, w') /\
       Forall2
         (fun c s => styles s = (talk_styles c ++ sing_styles c)%list /\
                     speaker_uuid s = uuid c) cs l) /\
  (forall cm ms core_version w l w',
     singers cm ms core_version w = (Ok l, w') ->
     exists core w1 cs,
       core_of_query cm core_version w = (Ok core, w1) /\
       sing_characters ms (characters core) w1 = (Ok cs, w') /\
       Forall2
         (fun c s => styles s = (talk_styles c ++ sing_styles c)%list /\
                     speaker_uuid s = uuid c) cs l).
Proof.
  assert (Hproj : forall cs,
    Forall2
      (fun c s => styles s = (talk_styles c ++ sing_styles c)%list /\
                  speaker_uuid s = uuid c) cs (_characters_to_speakers cs)).
  { induction cs as [|c cs IH]; simpl; constructor; auto. }
  split; [|split].
  - induction cs as [|c cs IH]; simpl; [reflexivity | now rewrite IH].
  - intros cm ms v w l w' H. rewrite speakers_steps in H.
    apply bind_inv_Ok in H as (core & w1 & Hcore & H).
    apply bind_inv_Ok in H as (cs & w2 & Hcs & H).
    injection H as <- <-. exists core, w1, cs. auto.
  - intros cm ms v w l w' H. rewrite singers_steps in H.
    apply bind_inv_Ok in H as (core & w1 & Hcore & H).
    apply bind_inv_Ok in H as (cs & w2 & Hcs & H).
    injection H as <- <-. exists core, w1, cs. auto.
Qed.

Lemma listing_styles_are_talk_then_sing_witness :
  exists core w1 cs,
    core_of_query sample_core_manager (Some "0.2.0") empty_world = (Ok core, w1) /\
    sing_characters sample_metas_store (characters core) w1
      = (Ok cs, mkWorld [CallGetCore "0.2.0"; CallSingCharacters [abc; duo]] ∅) /\
    Forall2
      (fun c s => styles s = (talk_styles c ++ sing_styles c)%list /\
                  speaker_uuid s = uuid c)
      cs
      [ {| speaker_name := "Duo"; speaker_uuid := "duo";
           styles := [normal_style; song_style]; speaker_version := "1.0.0";
           speaker_supported_features := SpeakerSupportedFeatures_default |} ].
Proof.
  exact (proj2 (proj2 listing_styles_are_talk_then_sing)
           sample_core_manager sample_metas_store (Some "0.2.0") empty_world
           _ _ eq_refl).
Defined.

(** ** Defaults of the query parameters *)

(** C8: [speaker_info] and [singer_info] called without [resource_format]
    behave as when called with [base64]: the metadata store is asked for
    [base64], which is not [url]. *)
Theorem resource_format_default_base64 :
  forall cm ms baseurl u v w,
    speaker_info cm ms baseurl u None v w
      = speaker_info cm ms baseurl u (Some base64) v w /\
    singer_info cm ms baseurl u None v w
      = singer_info cm ms baseurl u (Some base64) v w /\
    speaker_info cm ms baseurl u None v w
      = bind (core_of_query cm v)
          (fun core =>
             character_info ms u cap_talk (characters core) baseurl base64) w /\
    singer_info cm ms baseurl u None v w
      = bind (core_of_query cm v)
          (fun core =>
             character_info ms u cap_sing (characters core) baseurl base64) w /\
    base64 <> url.
Proof.
  intros. repeat split; try reflexivity.
  - apply speaker_info_steps.
  - apply singer_info_steps.
  - discriminate.
Qed.

(** ** The core registry *)

(** The lexicographic order on version strings is transitive (it is total
    by [String.leb_total]). *)
Lemma string_compare_le_trans (a b c : string) :
  String.compare a b <> Gt -> String.compare b c <> Gt ->
  String.compare a c <> Gt.
Proof.
  revert b c. induction a as [|x a IH]; intros [|y b] [|z c]; simpl;
    try congruence.
  unfold Ascii.compare.
  destruct (N.compare_spec (Ascii.N_of_ascii x) (Ascii.N_of_ascii y)) as [Hxy|Hxy|Hxy];
    destruct (N.compare_spec (Ascii.N_of_ascii y) (Ascii.N_of_ascii z)) as [Hyz|Hyz|Hyz];
    destruct (N.compare_spec (Ascii.N_of_ascii x) (Ascii.N_of_ascii z)) as [Hxz|Hxz|Hxz];
    try congruence; try lia.
  apply IH.
Qed.

Lemma string_leb_trans (a b c : string) :
  String.leb a b = true -> String.leb b c = true -> String.leb a c = true.
Proof.
  unfold String.leb. intros Hab Hbc.
  pose proof (string_compare_le_trans a b c) as H.
  destruct (String.compare a b), (String.compare b c), (String.compare a c);
    try reflexivity; try congruence; exfalso; apply H; congruence.
Qed.

Lemma registry_resolve_loaded r v :
  In v (loaded_versions r) ->
  exists c, registry_resolve r v = Some c /\ loaded_version c = v /\
            In c (loaded_cores r).
Proof.
  unfold registry_resolve, loaded_versions.
  induction (loaded_cores r) as [|c l IH]; simpl; [tauto|].
  intros H. destruct (String.eqb_spec (loaded_version c) v) as [E|N].
  - exists c. auto.
  - destruct H as [H|H]; [contradiction|].
    destruct (IH H) as (c' & ? & ? & ?). exists c'. auto.
Qed.

Lemma registry_resolve_unknown r v :
  ~ In v (loaded_versions r) -> registry_resolve r v = None.
Proof.
  unfold registry_resolve, loaded_versions.
  induction (loaded_cores r) as [|c l IH]; simpl; [reflexivity|].
  intros H. destruct (String.eqb_spec (loaded_version c) v) as [E|N].
  - exfalso. auto.
  - apply IH. auto.
Qed.

Section CoreRegistryFacts.

Variable version_leb : string -> string -> bool.

Lemma later_version_choice a b :
  later_version version_leb a b = a \/ later_version version_leb a b = b.
Proof. unfold later_version. destruct (version_leb a b); auto. Qed.

Lemma fold_later_version_In l a :
  In (fold_left (later_version version_leb) l a) (a :: l).
Proof.
  revert a. induction l as [|b l IH]; intros a; simpl.
  - now left.
  - destruct (IH (later_version version_leb a b)) as [H|H].
    + destruct (later_version_choice a b) as [E|E]; rewrite E in H |- *; auto.
    + auto.
Qed.

Lemma registry_latest_loaded r :
  In (registry_latest version_leb r) (loaded_versions r).
Proof. apply fold_later_version_In. Qed.

Hypothesis version_leb_total :
  forall a b, version_leb a b = true \/ version_leb b a = true.
Hypothesis version_leb_trans :
  forall a b c,
    version_leb a b = true -> version_leb b c = true -> version_leb a c = true.

Lemma later_version_upper a b :
  version_leb a (later_version version_leb a b) = true /\
  version_leb b (later_version version_leb a b) = true.
Proof.
  unfold later_version. destruct (version_leb a b) eqn:E.
  - split; [exact E|]. destruct (version_leb_total b b); assumption.
  - split.
    + destruct (version_leb_total a a); assumption.
    + destruct (version_leb_total a b) as [H|H]; [congruence | exact H].
Qed.

Lemma fold_later_version_upper l a x :
  In x (a :: l) ->
  version_leb x (fold_left (later_version version_leb) l a) = true.
Proof.
  revert a x. induction l as [|b l IH]; intros a x Hx; simpl.
  - destruct Hx as [<-|[]]. destruct (version_leb_total a a); assumption.
  - pose proof (later_version_upper a b) as [Ha Hb].
    pose proof (IH (later_version version_leb a b) _ (or_introl eq_refl)) as Hm.
    destruct Hx as [<-|[<-|Hx]].
    + eapply version_leb_trans; eassumption.
    + eapply version_leb_trans; eassumption.
    + apply IH. now right.
Qed.

Lemma registry_latest_upper r v :
  In v (loaded_versions r) ->
  version_leb v (registry_latest version_leb r) = true.
Proof. apply fold_later_version_upper. Qed.

End CoreRegistryFacts.

(** With the registry as core manager, an absent version is answered by
    the core of the latest loaded version. *)
Lemma core_of_query_absent version_leb r w :
  exists core,
    In core (loaded_cores r) /\
    loaded_version core = registry_latest version_leb r /\
    core_of_query (spec_core_manager version_leb r) None w
      = (Ok core,
         log_extend w [CallLatestVersion; CallGetCore (loaded_version core)]).
Proof.
  destruct (registry_resolve_loaded r _ (registry_latest_loaded version_leb r))
    as (core & Hres & Hver & Hin).
  exists core. split; [exact Hin|]. split; [exact Hver|].
  unfold core_of_query, or_else, spec_core_manager; simpl.
  unfold bind; simpl. rewrite Hres, Hver. unfold ret, log_extend; simpl.
  now rewrite <- app_assoc.
Qed.

(** A version that is truthy and not loaded stops the query at [get_core]. *)
Lemma core_of_query_unknown version_leb r v w :
  v <> "" -> ~ In v (loaded_versions r) ->
  core_of_query (spec_core_manager version_leb r) (Some v) w
    = (Raise UnknownVersion, log_extend w [CallGetCore v]).
Proof.
  intros Hne Hnot.
  unfold core_of_query, or_else, truthy.
  destruct (String.eqb_spec v "") as [->|_]; [contradiction|]. simpl.
  unfold bind, ret; simpl.
  now rewrite (registry_resolve_unknown r v Hnot).
Qed.

(** ** The resource store *)

Lemma resources_steps rm h w :
  resources rm h w =
  match resource_path rm h w with
  | (Ok p, w') =>
      (Ok {| path := p; headers := [("Cache-Control", "max-age=2592000")] |}, w')
  | (Raise ResourceManagerError, w') => (Raise (HTTPException 404), w')
  | (Raise e, w') => (Raise e, w')
  end.
Proof.
  unfold resources, bind, try_except.
  destruct (resource_path rm h w) as [[p|[]] w']; reflexivity.
Qed.

Lemma spec_resource_path_steps h w :
  resource_path spec_resource_manager h w =
  match hash_to_path w !! h with
  | Some p => (Ok p, log_extend w [CallResourcePath h])
  | None => (Raise ResourceManagerError, log_extend w [CallResourcePath h])
  end.
Proof.
  unfold spec_resource_manager, resolve, bind; simpl.
  destruct (hash_to_path w !! h); reflexivity.
Qed.

Section ResourceStoreFacts.

Variable content_hash : bytes -> string.
Variable files : gmap string bytes.

Lemma register_steps p w :
  register content_hash files p w =
  match files !! p with
  | None => (Raise AssetUnreadable, w)
  | Some content =>
      (Ok (content_hash content),
       mkWorld (calls w)
         (match hash_to_path w !! content_hash content with
          | Some _ => hash_to_path w
          | None => <[content_hash content := p]> (hash_to_path w)
          end))
  end.
Proof. reflexivity. Qed.

(** Registering issues a handle that resolves from then on, and touches
    no entry that was there. *)
Lemma register_lookup p w handle w' h :
  register content_hash files p w = (Ok handle, w') ->
  (is_Some (hash_to_path w' !! h) <->
   is_Some (hash_to_path w !! h) \/ h = handle).
Proof.
  rewrite register_steps. destruct (files !! p) as [content|]; [|discriminate].
  intros [= <- <-]; simpl.
  destruct (hash_to_path w !! content_hash content) as [q|] eqn:E.
  - split; [auto|]. intros [H| ->]; [exact H | rewrite E; eauto].
  - rewrite lookup_insert. case_decide as D.
    + subst h. split; [auto | eauto].
    + split; [auto|]. intros [H|H]; [exact H | congruence].
Qed.

Lemma register_failure p w e w' :
  register content_hash files p w = (Raise e, w') ->
  e = AssetUnreadable /\ w' = w.
Proof.
  rewrite register_steps. destruct (files !! p); [discriminate|].
  now intros [= <- <-].
Qed.

(** The resolvable handles are those present at the start and those
    issued since. *)
Lemma register_each_lookup paths w h :
  is_Some (hash_to_path (snd (register_each content_hash files paths w)) !! h)
  <-> is_Some (hash_to_path w !! h) \/
      In h (fst (register_each content_hash files paths w)).
Proof.
  revert w. induction paths as [|p ps IH]; intros w; simpl.
  - tauto.
  - destruct (register content_hash files p w) as [[handle|e] w'] eqn:R.
    + specialize (IH w').
      destruct (register_each content_hash files ps w') as [hs w''].
      simpl in *. rewrite IH, (register_lookup _ _ _ _ h R).
      intuition congruence.
    + apply register_failure in R as [_ ->]. apply IH.
Qed.

End ResourceStoreFacts.

(** C2: after any sequence of registrations on a store that started
    empty, fetching a hash that was not issued ends in [HTTPException(404)]
    and in no other exception; with this resource manager a fetch ends in
    404 exactly when [resource_path] raised [ResourceManagerError], and
    otherwise returns a response; and for any resource manager a
    [ResourceManagerError] from [resource_path] becomes a 404, and a 404
    comes from nothing else than that or a 404 raised by [resource_path]
    itself. *)
Theorem unissued_hash_not_found :
  (forall content_hash files paths w0 h,
     hash_to_path w0 = ∅ ->
     ~ In h (fst (register_each content_hash files paths w0)) ->
     let w := snd (register_each content_hash files paths w0) in
     resources spec_resource_manager h w
       = (Raise (HTTPException 404), log_extend w [CallResourcePath h])) /\
  (forall h w,
     fst (resources spec_resource_manager h w) = Raise (HTTPException 404)
     <-> fst (resource_path spec_resource_manager h w)
           = Raise ResourceManagerError) /\
  (forall h w,
     (exists r, fst (resources spec_resource_manager h w) = Ok r) \/
     fst (resources spec_resource_manager h w) = Raise (HTTPException 404)) /\
  (forall rm h w w',
     resource_path rm h w = (Raise ResourceManagerError, w') ->
     resources rm h w = (Raise (HTTPException 404), w')) /\
  (forall rm h w w',
     resources rm h w = (Raise (HTTPException 404), w') ->
     resource_path rm h w = (Raise ResourceManagerError, w') \/
     resource_path rm h w = (Raise (HTTPException 404), w')).
Proof.
  split; [|split; [|split; [|split]]].
  - intros content_hash files paths w0 h Hempty Hnot w.
    rewrite resources_steps, spec_resource_path_steps.
    destruct (hash_to_path w !! h) as [p|] eqn:E; [|reflexivity].
    exfalso.
    assert (Hs : is_Some (hash_to_path w !! h)) by eauto.
    apply register_each_lookup in Hs as [Hs|Hs]; [|contradiction].
    rewrite Hempty, lookup_empty in Hs. now destruct Hs.
  - intros h w. rewrite resources_steps, spec_resource_path_steps.
    destruct (hash_to_path w !! h); simpl; split; congruence.
  - intros h w. rewrite resources_steps, spec_resource_path_steps.
    destruct (hash_to_path w !! h); simpl; eauto.
  - intros rm h w w' H. rewrite resources_steps. now rewrite H.
  - intros rm h w w'. rewrite resources_steps.
    destruct (resource_path rm h w) as [[p|[]] w1]; intros H;
      inversion H; subst; auto.
Qed.

Lemma unissued_hash_not_found_witness :
  fst (register_each sample_hash sample_files
         ["abc/portrait.png"; "abc/missing.png"] empty_world) = ["h-PNG"] /\
  resources spec_resource_manager "deadbeef"
    (snd (register_each sample_hash sample_files
            ["abc/portrait.png"; "abc/missing.png"] empty_world))
  = (Raise (HTTPException 404),
     mkWorld [CallResourcePath "deadbeef"] (<["h-PNG" := "abc/portrait.png"]> ∅)).
Proof.
  split; [reflexivity|].
  refine (proj1 unissued_hash_not_found sample_hash sample_files
            ["abc/portrait.png"; "abc/missing.png"] empty_world "deadbeef" _ _).
  - reflexivity.
  - vm_compute. intros [H|[]]; discriminate H.
Defined.

(** C7: when the hash resolves to a path, the fetch returns a
    [FileResponse] for that path, whose body is the bytes of the file
    there, with the header [Cache-Control: max-age=2592000], the number of
    seconds in 30 days. *)
Theorem resources_file_and_cache_directive :
  forall rm files h w p w',
    resource_path rm h w = (Ok p, w') ->
    exists r,
      resources rm h w = (Ok r, w') /\
      path r = p /\
      FileResponse_body files r = files !! p /\
      headers r = [("Cache-Control", "max-age=2592000")] /\
      cache_max_age r = Some (pretty (seconds_of_days 30)) /\
      seconds_of_days 30 = 2592000%N.
Proof.
  intros rm files h w p w' H.
  exists {| path := p; headers := [("Cache-Control", "max-age=2592000")] |}.
  rewrite resources_steps, H.
  repeat split; vm_compute; reflexivity.
Qed.

Lemma resources_file_and_cache_directive_witness :
  exists r,
    resources spec_resource_manager "h-PNG"
      (mkWorld [] (<["h-PNG" := "abc/portrait.png"]> ∅))
      = (Ok r, mkWorld [CallResourcePath "h-PNG"]
                 (<["h-PNG" := "abc/portrait.png"]> ∅)) /\
    path r = "abc/portrait.png" /\
    FileResponse_body sample_files r = Some [Byte.x50; Byte.x4e; Byte.x47] /\
    headers r = [("Cache-Control", "max-age=2592000")] /\
    cache_max_age r = Some "2592000" /\
    seconds_of_days 30 = 2592000%N.
Proof.
  refine (resources_file_and_cache_directive spec_resource_manager sample_files
            "h-PNG" (mkWorld [] (<["h-PNG" := "abc/portrait.png"]> ∅))
            "abc/portrait.png" _ _).
  vm_compute. reflexivity.
Defined.

(** ** Version resolution in the four query handlers *)

(** C3: over the core registry with a total, transitive version order, a
    query without [core_version] asks [latest_version], then [get_core]
    for that version, and runs on the loaded core whose version is the
    greatest of the loaded ones; this holds for all four handlers. *)
Theorem absent_core_version_uses_latest :
  forall version_leb : string -> string -> bool,
    (forall a b, version_leb a b = true \/ version_leb b a = true) ->
    (forall a b c,
       version_leb a b = true -> version_leb b c = true ->
       version_leb a c = true) ->
    forall r ms baseurl u fmt w,
    exists core,
      In core (loaded_cores r) /\
      (forall c, In c (loaded_cores r) ->
                 version_leb (loaded_version c) (loaded_version core) = true) /\
      let cm := spec_core_manager version_leb r in
      let w1 :=
        log_extend w [CallLatestVersion; CallGetCore (loaded_version core)] in
      speakers cm ms None w
        = bind (talk_characters ms (characters core))
            (fun cs => ret (_characters_to_speakers cs)) w1 /\
      singers cm ms None w
        = bind (sing_characters ms (characters core))
            (fun cs => ret (_characters_to_speakers cs)) w1 /\
      speaker_info cm ms baseurl u fmt None w
        = character_info ms u cap_talk (characters core) baseurl
            (default base64 fmt) w1 /\
      singer_info cm ms baseurl u fmt None w
        = character_info ms u cap_sing (characters core) baseurl
            (default base64 fmt) w1.
Proof.
  intros version_leb Htotal Htrans r ms baseurl u fmt w.
  destruct (core_of_query_absent version_leb r w) as (core & Hin & Hver & Hq).
  exists core. split; [exact Hin|]. split.
  - intros c Hc. rewrite Hver.
    apply registry_latest_upper; auto.
    unfold loaded_versions. now apply in_map.
  - cbv zeta.
    rewrite speakers_steps, singers_steps, speaker_info_steps, singer_info_steps.
    rewrite !(bind_Ok _ _ _ _ _ Hq). auto.
Qed.

Lemma absent_core_version_uses_latest_witness :
  exists core,
    In core (loaded_cores sample_registry) /\
    (forall c, In c (loaded_cores sample_registry) ->
               String.leb (loaded_version c) (loaded_version core) = true) /\
    let cm := spec_core_manager String.leb sample_registry in
    let w1 :=
      log_extend empty_world
        [CallLatestVersion; CallGetCore (loaded_version core)] in
    speakers cm sample_metas_store None empty_world
      = bind (talk_characters sample_metas_store (characters core))
          (fun cs => ret (_characters_to_speakers cs)) w1 /\
    singers cm sample_metas_store None empty_world
      = bind (sing_characters sample_metas_store (characters core))
          (fun cs => ret (_characters_to_speakers cs)) w1 /\
    speaker_info cm sample_metas_store sample_baseurl "abc" None None empty_world
      = character_info sample_metas_store "abc" cap_talk (characters core)
          sample_baseurl (default base64 None) w1 /\
    singer_info cm sample_metas_store sample_baseurl "abc" None None empty_world
      = character_info sample_metas_store "abc" cap_sing (characters core)
          sample_baseurl (default base64 None) w1.
Proof.
  exact (absent_core_version_uses_latest String.leb String.leb_total
           string_leb_trans sample_registry sample_metas_store sample_baseurl
           "abc" None empty_world).
Defined.

(** C9: on the four query handlers an empty [core_version] runs exactly
    as an absent one does: each handler asks [latest_version], asks
    [get_core] for the version it returned (not for the empty string) and
    goes on with that core.  Over the core registry the four handlers
    therefore continue on the latest loaded core, after the calls
    [latest_version] and [get_core], instead of failing with
    [UnknownVersion]; for a total, transitive version order that core's
    version is the greatest loaded one. *)
Theorem empty_core_version_is_absent :
  forall cm ms baseurl u fmt,
    speakers cm ms (Some "") = speakers cm ms None /\
    singers cm ms (Some "") = singers cm ms None /\
    speaker_info cm ms baseurl u fmt (Some "")
      = speaker_info cm ms baseurl u fmt None /\
    singer_info cm ms baseurl u fmt (Some "")
      = singer_info cm ms baseurl u fmt None /\
    core_of_query cm (Some "")
      = bind (latest_version cm) (get_core cm) /\
    truthy (Some "") = false /\
    (forall w,
       speakers cm ms (Some "") w
         = bind (bind (latest_version cm) (get_core cm))
             (fun core =>
                bind (talk_characters ms (characters core))
                  (fun cs => ret (_characters_to_speakers cs))) w /\
       singers cm ms (Some "") w
         = bind (bind (latest_version cm) (get_core cm))
             (fun core =>
                bind (sing_characters ms (characters core))
                  (fun cs => ret (_characters_to_speakers cs))) w /\
       speaker_info cm ms baseurl u fmt (Some "") w
         = bind (bind (latest_version cm) (get_core cm))
             (fun core =>
                character_info ms u cap_talk (characters core) baseurl
                  (default base64 fmt)) w /\
       singer_info cm ms baseurl u fmt (Some "") w
         = bind (bind (latest_version cm) (get_core cm))
             (fun core =>
                character_info ms u cap_sing (characters core) baseurl
                  (default base64 fmt)) w) /\
    forall version_leb r w,
    exists core,
      In core (loaded_cores r) /\
      loaded_version core = registry_latest version_leb r /\
      ((forall a b, version_leb a b = true \/ version_leb b a = true) ->
       (forall a b c,
          version_leb a b = true -> version_leb b c = true ->
          version_leb a c = true) ->
       forall c, In c (loaded_cores r) ->
                 version_leb (loaded_version c) (loaded_version core) = true) /\
      let rcm := spec_core_manager version_leb r in
      let w1 :=
        log_extend w [CallLatestVersion; CallGetCore (loaded_version core)] in
      core_of_query rcm (Some "") w = (Ok core, w1) /\
      speakers rcm ms (Some "") w
        = bind (talk_characters ms (characters core))
            (fun cs => ret (_characters_to_speakers cs)) w1 /\
      singers rcm ms (Some "") w
        = bind (sing_characters ms (characters core))
            (fun cs => ret (_characters_to_speakers cs)) w1 /\
      speaker_info rcm ms baseurl u fmt (Some "") w
        = character_info ms u cap_talk (characters core) baseurl
            (default base64 fmt) w1 /\
      singer_info rcm ms baseurl u fmt (Some "") w
        = character_info ms u cap_sing (characters core) baseurl
            (default base64 fmt) w1.
Proof.
  intros cm ms baseurl u fmt. repeat (split; [reflexivity|]).
  split.
  - intros w.
    rewrite speakers_steps, singers_steps, speaker_info_steps, singer_info_steps.
    repeat split; reflexivity.
  - intros version_leb r w.
    destruct (core_of_query_absent version_leb r w) as (core & Hin & Hver & Hq).
    change (core_of_query (spec_core_manager version_leb r) None w)
      with (core_of_query (spec_core_manager version_leb r) (Some "") w) in Hq.
    exists core. split; [exact Hin|]. split; [exact Hver|]. split.
    + intros Htotal Htrans c Hc. rewrite Hver.
      apply registry_latest_upper; auto.
      unfold loaded_versions. now apply in_map.
    + cbv zeta. split; [exact Hq|].
      rewrite speakers_steps, singers_steps, speaker_info_steps,
        singer_info_steps.
      rewrite !(bind_Ok _ _ _ _ _ Hq). auto.
Qed.

Lemma empty_core_version_is_absent_witness :
  speakers sample_core_manager sample_metas_store (Some "") empty_world
    = (Ok (_characters_to_speakers [abc; duo]),
       mkWorld
         [CallLatestVersion; CallGetCore "0.2.0"; CallTalkCharacters [abc; duo]]
         ∅) /\
  forall c, In c (loaded_cores sample_registry) ->
            String.leb (loaded_version c) "0.2.0" = true.
Proof.
  destruct (empty_core_version_is_absent sample_core_manager sample_metas_store
              sample_baseurl "abc" None)
    as (_ & _ & _ & _ & _ & _ & _ & Hreg).
  destruct (Hreg String.leb sample_registry empty_world)
    as (core & Hin & Hver & Hmax & _ & Hsp & _).
  assert (E : loaded_version core = "0.2.0") by (rewrite Hver; reflexivity).
  assert (Ec : core = core_0_2).
  { destruct Hin as [<-|[<-|[]]]; [discriminate E | reflexivity]. }
  subst core. split.
  - exact Hsp.
  - exact (Hmax String.leb_total string_leb_trans).
Defined.

(** C4 (as amended): a [core_version] that is not the empty string and
    matches no loaded core makes each of the four handlers fail with
    [UnknownVersion]; the only call made is [get_core], so no method of
    the metadata store runs, whatever the store is. *)
Theorem unknown_core_version_fails_first :
  forall version_leb r v (ms : MetasStore) baseurl u fmt w,
    v <> "" ->
    ~ In v (loaded_versions r) ->
    let cm := spec_core_manager version_leb r in
    let w1 := log_extend w [CallGetCore v] in
    speakers cm ms (Some v) w = (Raise UnknownVersion, w1) /\
    singers cm ms (Some v) w = (Raise UnknownVersion, w1) /\
    speaker_info cm ms baseurl u fmt (Some v) w = (Raise UnknownVersion, w1) /\
    singer_info cm ms baseurl u fmt (Some v) w = (Raise UnknownVersion, w1).
Proof.
  intros version_leb r v ms baseurl u fmt w Hne Hnot. cbv zeta.
  pose proof (core_of_query_unknown version_leb r v w Hne Hnot) as Hq.
  rewrite speakers_steps, singers_steps, speaker_info_steps, singer_info_steps.
  rewrite !(bind_Raise _ _ _ _ _ Hq). auto.
Qed.

Lemma unknown_core_version_fails_first_witness :
  "9.9.9" <> "" /\
  ~ In "9.9.9" (loaded_versions sample_registry) /\
  speakers sample_core_manager sample_metas_store (Some "9.9.9") empty_world
    = (Raise UnknownVersion, mkWorld [CallGetCore "9.9.9"] ∅) /\
  singer_info sample_core_manager sample_metas_store sample_baseurl "abc" None
    (Some "9.9.9") empty_world
    = (Raise UnknownVersion, mkWorld [CallGetCore "9.9.9"] ∅).
Proof.
  assert (Hne : "9.9.9" <> "") by discriminate.
  assert (Hnot : ~ In "9.9.9" (loaded_versions sample_registry)).
  { simpl. intros [H|[H|[]]]; discriminate. }
  pose proof (unknown_core_version_fails_first String.leb sample_registry
                "9.9.9" sample_metas_store sample_baseurl "abc" None
                empty_world Hne Hnot) as (H1 & _ & _ & H4).
  split; [exact Hne|]. split; [exact Hnot|]. split; [exact H1 | exact H4].
Defined.

(** The empty string is a [core_version] that is present and matches no
    loaded core, and yet [speakers] and [speaker_info] answer from the
    latest core instead of failing with [UnknownVersion]. *)
Lemma empty_core_version_not_unknown :
  ~ In "" (loaded_versions sample_registry) /\
  fst (speakers sample_core_manager sample_metas_store (Some "") empty_world)
    = Ok (_characters_to_speakers [abc; duo]) /\
  fst (speakers sample_core_manager sample_metas_store (Some "") empty_world)
    <> Raise UnknownVersion /\
  calls (snd (speakers sample_core_manager sample_metas_store (Some "")
                empty_world))
    = [CallLatestVersion; CallGetCore "0.2.0"; CallTalkCharacters [abc; duo]] /\
  (exists info,
     fst (speaker_info sample_core_manager sample_metas_store sample_baseurl
            "abc" None (Some "") empty_world) = Ok info).
Proof.
  split; [simpl; intros [H|[H|[]]]; discriminate|].
  split; [vm_compute; reflexivity|].
  split; [vm_compute; discriminate|].
  split; [vm_compute; reflexivity|].
  eexists. vm_compute. reflexivity.
Qed.

(** ** The metadata resolver *)

Lemma has_styles_talk c : has_styles cap_talk c = true <-> talk_styles c <> [].
Proof. unfold has_styles. destruct (talk_styles c); simpl; split; congruence. Qed.

Lemma has_styles_sing c : has_styles cap_sing c = true <-> sing_styles c <> [].
Proof. unfold has_styles. destruct (sing_styles c); simpl; split; congruence. Qed.

Lemma list_characters_In cap cs c :
  In c (list_characters cap cs) <-> In c cs /\ has_styles cap c = true.
Proof. apply filter_In. Qed.

Lemma returns_quietly_ret {A} (a : A) : returns_quietly (ret a).
Proof. intros w. now exists a, w. Qed.

Lemma returns_quietly_bind {A B} (m : M A) (k : A -> M B) :
  returns_quietly m -> (forall a, returns_quietly (k a)) ->
  returns_quietly (bind m k).
Proof.
  intros Hm Hk w. destruct (Hm w) as (a & w1 & E1 & L1).
  destruct (Hk a w1) as (b & w2 & E2 & L2).
  exists b, w2. rewrite (bind_Ok _ _ _ _ _ E1). split; [exact E2 | congruence].
Qed.

Lemma returns_quietly_mapM {A B} (f : A -> M B) l :
  Forall (fun a => returns_quietly (f a)) l -> returns_quietly (mapM f l).
Proof.
  induction 1 as [|a l Ha _ IH]; simpl.
  - apply returns_quietly_ret.
  - apply returns_quietly_bind; [exact Ha|]. intros b.
    apply returns_quietly_bind; [exact IH|]. intros bs.
    apply returns_quietly_ret.
Qed.

Section MetadataResolverFacts.

Variable content_hash : bytes -> string.
Variable files : gmap string bytes.
Variable b64encode : bytes -> string.
Variable assets : AssetCatalogue.

Let resolver := resolve_resource content_hash files b64encode.

Lemma resolve_resource_readable baseurl fmt p :
  readable files p -> returns_quietly (resolver baseurl fmt p).
Proof.
  intros [content E] w. unfold resolver, resolve_resource.
  destruct fmt.
  - rewrite E. now exists (b64encode content), w.
  - unfold bind. rewrite register_steps, E. eexists _, _. split; reflexivity.
Qed.

Lemma style_detail_readable baseurl fmt style :
  Forall (readable files) (style_asset_paths assets style) ->
  returns_quietly (style_detail content_hash files b64encode assets baseurl fmt style).
Proof.
  unfold style_asset_paths, style_detail. intros H.
  apply Forall_cons_iff in H as [Hicon H].
  apply Forall_app in H as [Hportrait Hsamples].
  apply returns_quietly_bind; [now apply resolve_resource_readable|]. intros i.
  apply returns_quietly_bind.
  { destruct (portrait_path (style_assets assets (style_id style))) as [p|].
    - apply returns_quietly_bind; [|intros; apply returns_quietly_ret].
      apply resolve_resource_readable.
      now apply Forall_cons_iff in Hportrait as [Hp _].
    - apply returns_quietly_ret. }
  intros po. apply returns_quietly_bind; [|intros; apply returns_quietly_ret].
  apply returns_quietly_mapM.
  eapply Forall_impl; [exact Hsamples|].
  intros p Hp. now apply resolve_resource_readable.
Qed.

Lemma character_detail_found u cap cs baseurl fmt c :
  List.find (fun c => String.eqb (uuid c) u) (list_characters cap cs) = Some c ->
  Forall (readable files) (detail_asset_paths assets cap c) ->
  returns_quietly
    (character_detail content_hash files b64encode assets u cap cs baseurl fmt).
Proof.
  intros Hfind Hread. unfold character_detail. rewrite Hfind.
  unfold detail_asset_paths in Hread.
  apply Forall_cons_iff in Hread as [Hportrait Hstyles].
  apply returns_quietly_bind; [now apply resolve_resource_readable|]. intros po.
  apply returns_quietly_bind; [|intros; apply returns_quietly_ret].
  apply returns_quietly_mapM.
  induction (capability_styles cap c) as [|s l IH]; [constructor|].
  cbn [map concat] in Hstyles. apply Forall_app in Hstyles as [Hs Hl].
  constructor; [now apply style_detail_readable | now apply IH].
Qed.

Lemma character_detail_not_found u cap cs baseurl fmt w :
  (forall c, In c cs -> uuid c = u -> has_styles cap c = false) ->
  character_detail content_hash files b64encode assets u cap cs baseurl fmt w
    = (Raise UnknownCharacter, w).
Proof.
  intros H. unfold character_detail.
  destruct (List.find _ _) as [c|] eqn:E; [|reflexivity].
  apply find_some in E as [Hin Hu].
  apply list_characters_In in Hin as [Hin Hcap].
  apply String.eqb_eq in Hu. rewrite (H c Hin Hu) in Hcap. discriminate.
Qed.

Lemma character_detail_lookup u cap cs :
  (exists c, In c cs /\ uuid c = u /\ has_styles cap c = true) ->
  exists c,
    List.find (fun c => String.eqb (uuid c) u) (list_characters cap cs) = Some c /\
    In c cs /\ uuid c = u.
Proof.
  intros (c & Hin & Hu & Hcap).
  destruct (List.find _ _) as [c'|] eqn:E.
  - exists c'. split; [reflexivity|].
    apply find_some in E as [Hin' Hu'].
    apply list_characters_In in Hin' as [Hin' _].
    now apply String.eqb_eq in Hu'.
  - exfalso.
    assert (Hc : In c (list_characters cap cs)) by now apply list_characters_In.
    pose proof (find_none _ _ E c Hc) as Hf. simpl in Hf.
    apply String.eqb_neq in Hf. contradiction.
Qed.

End MetadataResolverFacts.

Lemma spec_character_info_steps content_hash files b64encode assets
    u cap cs baseurl fmt w :
  character_info (spec_metas_store content_hash files b64encode assets)
    u cap cs baseurl fmt w
  = character_detail content_hash files b64encode assets u cap cs baseurl fmt
      (log_extend w [CallCharacterInfo u cap cs baseurl fmt]).
Proof. reflexivity. Qed.

(** C5: [speaker_info] asks the metadata store for the character under
    capability talk and [singer_info] under capability sing.  With the
    metadata resolver as store, when the core of the query has the uuid,
    on characters with talk styles and no sing styles whose assets are
    readable, [speaker_info] returns a record and [singer_info] fails with
    [UnknownCharacter]. *)
Theorem info_lookup_bound_to_capability :
  (forall cm ms baseurl u fmt v w,
     speaker_info cm ms baseurl u fmt v w
       = bind (core_of_query cm v)
           (fun core =>
              character_info ms u cap_talk (characters core) baseurl
                (default base64 fmt)) w /\
     singer_info cm ms baseurl u fmt v w
       = bind (core_of_query cm v)
           (fun core =>
              character_info ms u cap_sing (characters core) baseurl
                (default base64 fmt)) w) /\
  (forall content_hash files b64encode assets cm baseurl u fmt v w core w1,
     let ms := spec_metas_store content_hash files b64encode assets in
     core_of_query cm v w = (Ok core, w1) ->
     (exists c, In c (characters core) /\ uuid c = u) ->
     (forall c, In c (characters core) -> uuid c = u ->
        talk_styles c <> [] /\ sing_styles c = [] /\
        Forall (readable files) (detail_asset_paths assets cap_talk c)) ->
     (exists info w',
        speaker_info cm ms baseurl u fmt v w = (Ok info, w') /\
        calls w'
          = (calls w1 ++
             [CallCharacterInfo u cap_talk (characters core) baseurl
                (default base64 fmt)])%list) /\
     singer_info cm ms baseurl u fmt v w
       = (Raise UnknownCharacter,
          log_extend w1
            [CallCharacterInfo u cap_sing (characters core) baseurl
               (default base64 fmt)])).
Proof.
  split.
  - intros. split; [apply speaker_info_steps | apply singer_info_steps].
  - intros content_hash files b64encode assets cm baseurl u fmt v w core w1 ms
      Hq (c0 & Hin0 & Hu0) Hall.
    split.
    + rewrite speaker_info_steps, (bind_Ok _ _ _ _ _ Hq).
      unfold ms. rewrite spec_character_info_steps.
      destruct (character_detail_lookup u cap_talk (characters core))
        as (c & Hfind & Hin & Hu).
      { exists c0. split; [exact Hin0|]. split; [exact Hu0|].
        apply has_styles_talk. apply (Hall c0 Hin0 Hu0). }
      destruct (Hall c Hin Hu) as (_ & _ & Hread).
      destruct (character_detail_found content_hash files b64encode assets
                  u cap_talk (characters core) baseurl (default base64 fmt) c
                  Hfind Hread
                  (log_extend w1
                     [CallCharacterInfo u cap_talk (characters core) baseurl
                        (default base64 fmt)]))
        as (info & w' & E & L).
      exists info, w'. split; [exact E | exact L].
    + rewrite singer_info_steps, (bind_Ok _ _ _ _ _ Hq).
      unfold ms. rewrite spec_character_info_steps.
      apply character_detail_not_found.
      intros c Hin Hu. destruct (Hall c Hin Hu) as (_ & Hsing & _).
      unfold has_styles. now rewrite Hsing.
Qed.

Lemma info_lookup_bound_to_capability_witness :
  (exists info w',
     speaker_info sample_core_manager sample_metas_store sample_baseurl "abc"
       None None empty_world = (Ok info, w') /\
     calls w'
       = [CallLatestVersion; CallGetCore "0.2.0";
          CallCharacterInfo "abc" cap_talk [abc; duo] sample_baseurl base64]) /\
  singer_info sample_core_manager sample_metas_store sample_baseurl "abc"
    None None empty_world
    = (Raise UnknownCharacter,
       mkWorld
         [CallLatestVersion; CallGetCore "0.2.0";
          CallCharacterInfo "abc" cap_sing [abc; duo] sample_baseurl base64] ∅).
Proof.
  refine (proj2 info_lookup_bound_to_capability
            sample_hash sample_files sample_b64encode sample_assets
            sample_core_manager sample_baseurl "abc" None None empty_world
            core_0_2
            (mkWorld [CallLatestVersion; CallGetCore "0.2.0"] ∅) _ _ _).
  - reflexivity.
  - exists abc. split; [simpl; auto | reflexivity].
  - intros c [<-|[<-|[]]] Hu; [|discriminate Hu].
    split; [discriminate|]. split; [reflexivity|].
    repeat constructor; vm_compute; eauto.
Defined.

(** C6: with the metadata resolver as store, [speakers] returns the
    projections of exactly the characters of the core whose [talk_styles]
    is not empty, in the core's order, and [singers] of those whose
    [sing_styles] is not empty; a core whose only character has one talk
    style and no sing style gives one entry from [speakers] and none from
    [singers]. *)
Theorem listing_excludes_exactly_empty :
  (forall content_hash files b64encode assets cm v w core w1,
     let ms := spec_metas_store content_hash files b64encode assets in
     core_of_query cm v w = (Ok core, w1) ->
     speakers cm ms v w
       = (Ok (_characters_to_speakers
                (list_characters cap_talk (characters core))),
          log_extend w1 [CallTalkCharacters (characters core)]) /\
     singers cm ms v w
       = (Ok (_characters_to_speakers
                (list_characters cap_sing (characters core))),
          log_extend w1 [CallSingCharacters (characters core)])) /\
  (forall cs c,
     In c (list_characters cap_talk cs) <-> In c cs /\ talk_styles c <> []) /\
  (forall cs c,
     In c (list_characters cap_sing cs) <-> In c cs /\ sing_styles c <> []) /\
  (forall content_hash files b64encode assets version_leb,
     let ms := spec_metas_store content_hash files b64encode assets in
     let cm :=
       spec_core_manager version_leb
         (mkCoreRegistry (mkCore "1.0.0" [abc]) []) in
     fst (speakers cm ms None empty_world)
       = Ok [ {| speaker_name := "Abc"; speaker_uuid := "abc";
                 styles := [mkSpeakerStyle "Normal" 0%Z ST_talk];
                 speaker_version := "1.0.0";
                 speaker_supported_features := SpeakerSupportedFeatures_default |} ] /\
     fst (singers cm ms None empty_world) = Ok []).
Proof.
  split; [|split; [|split]].
  - intros content_hash files b64encode assets cm v w core w1 ms Hq.
    rewrite speakers_steps, singers_steps, !(bind_Ok _ _ _ _ _ Hq).
    split; reflexivity.
  - intros cs c. rewrite list_characters_In, has_styles_talk. tauto.
  - intros cs c. rewrite list_characters_In, has_styles_sing. tauto.
  - intros. split; reflexivity.
Qed.

Lemma listing_excludes_exactly_empty_witness :
  speakers sample_core_manager sample_metas_store (Some "0.1.0") empty_world
    = (Ok (_characters_to_speakers [abc]),
       mkWorld [CallGetCore "0.1.0"; CallTalkCharacters [abc]] ∅) /\
  singers sample_core_manager sample_metas_store (Some "0.1.0") empty_world
    = (Ok [], mkWorld [CallGetCore "0.1.0"; CallSingCharacters [abc]] ∅).
Proof.
  refine (proj1 listing_excludes_exactly_empty
            sample_hash sample_files sample_b64encode sample_assets
            sample_core_manager (Some "0.1.0") empty_world core_0_1
            (mkWorld [CallGetCore "0.1.0"] ∅) _).
  reflexivity.
Defined.

(** ** Further properties of the router and the models *)

Lemma string_app_assoc (a b c : string) : (a +:+ b) +:+ c = a +:+ (b +:+ c).
Proof.
  induction a as [|x a IH]; [reflexivity|].
  change (String x ((a +:+ b) +:+ c) = String x (a +:+ (b +:+ c))).
  now rewrite IH.
Qed.

Lemma core_of_query_truthy cm v w :
  v <> "" -> core_of_query cm (Some v) w = get_core cm v w.
Proof.
  intros Hne. unfold core_of_query, or_else, truthy.
  destruct (String.eqb_spec v "") as [->|_]; [contradiction|]. reflexivity.
Qed.

Lemma core_of_query_falsy cm v w :
  truthy v = false ->
  core_of_query cm v w = bind (latest_version cm) (get_core cm) w.
Proof.
  intros Hf. unfold core_of_query, or_else.
  destruct v as [s|]; [|reflexivity]. now rewrite Hf.
Qed.

Lemma preserves_ret {A} I (a : A) : preserves I (ret a).
Proof. intros w r w' HI [= <- <-]. exact HI. Qed.

Lemma preserves_raise {A} I e : preserves I (@raise A e).
Proof. intros w r w' HI [= <- <-]. exact HI. Qed.

Lemma preserves_bind {A B} I (m : M A) (k : A -> M B) :
  preserves I m -> (forall a, preserves I (k a)) -> preserves I (bind m k).
Proof.
  intros Hm Hk w r w' HI. unfold bind.
  destruct (m w) as [[a|e] w1] eqn:E.
  - intros H. exact (Hk a w1 r w' (Hm w _ w1 HI E) H).
  - intros [= <- <-]. exact (Hm w _ w1 HI E).
Qed.

Lemma preserves_try_except {A} I (m : M A) handler :
  preserves I m -> (forall e, preserves I (handler e)) ->
  preserves I (try_except m handler).
Proof.
  intros Hm Hh w r w' HI. unfold try_except.
  destruct (m w) as [[a|e] w1] eqn:E.
  - intros [= <- <-]. exact (Hm w _ w1 HI E).
  - intros H. exact (Hh e w1 r w' (Hm w _ w1 HI E) H).
Qed.

Lemma preserves_core_of_query I cm v :
  preserves I (latest_version cm) -> (forall x, preserves I (get_core cm x)) ->
  preserves I (core_of_query cm v).
Proof.
  intros Hl Hg. unfold core_of_query. apply preserves_bind; [|exact Hg].
  unfold or_else. destruct v as [s|]; [|exact Hl].
  destruct (truthy (Some s)); [apply preserves_ret | exact Hl].
Qed.

Lemma preserves_steps {A} I (m m' : M A) :
  (forall w, m w = m' w) -> preserves I m' -> preserves I m.
Proof. intros E H w r w' HI Hm. rewrite E in Hm. exact (H w r w' HI Hm). Qed.

(** X1: [_characters_to_speakers] gives one speaker per character, in the
    same order: the list keeps its length, the speaker at each index
    copies the name, uuid, version and supported features of the character
    at that index and lists its talk styles before its sing styles, and
    the projection of a concatenation is the concatenation of the
    projections. *)
Theorem characters_to_speakers_pointwise :
  forall cs : list Character,
    length (_characters_to_speakers cs) = length cs /\
    (forall i c,
       nth_error cs i = Some c ->
       nth_error (_characters_to_speakers cs) i
       = Some {| speaker_name := name c;
                 speaker_uuid := uuid c;
                 styles := talk_styles c ++ sing_styles c;
                 speaker_version := version c;
                 speaker_supported_features := supported_features c |}) /\
    (forall i, nth_error cs i = None ->
               nth_error (_characters_to_speakers cs) i = None) /\
    (forall cs',
       _characters_to_speakers (cs ++ cs')
       = (_characters_to_speakers cs ++ _characters_to_speakers cs')%list).
Proof.
  intros cs. unfold _characters_to_speakers.
  split; [apply length_map|]. split; [|split].
  - intros i c H. rewrite nth_error_map, H. reflexivity.
  - intros i H. rewrite nth_error_map, H. reflexivity.
  - intros cs'. apply map_app.
Qed.

Lemma characters_to_speakers_pointwise_witness :
  nth_error (_characters_to_speakers [abc; duo]) 1
  = Some {| speaker_name := "Duo"; speaker_uuid := "duo";
            styles := [normal_style; song_style];
            speaker_version := "1.0.0";
            speaker_supported_features := SpeakerSupportedFeatures_default |} /\
  nth_error (_characters_to_speakers [abc; duo]) 2 = None.
Proof.
  destruct (characters_to_speakers_pointwise [abc; duo]) as (_ & Hsome & Hnone & _).
  split; [exact (Hsome 1 duo eq_refl) | exact (Hnone 2 eq_refl)].
Defined.

(** X2: the base URL computed for a request, followed by a slash and a
    hash, is the request's scheme and host followed by the path of the
    resource route for that hash; two hashes give the same URL only when
    they are equal. *)
Theorem resource_baseurl_reaches_route :
  forall request h h',
    _get_resource_baseurl request +:+ "/" +:+ h
      = url_scheme request +:+ "://" +:+ url_netloc request +:+ resources_route h /\
    (_get_resource_baseurl request +:+ "/" +:+ h
       = _get_resource_baseurl request +:+ "/" +:+ h' -> h = h').
Proof.
  intros request h h'. split.
  - unfold _get_resource_baseurl, resources_route.
    now rewrite !string_app_assoc.
  - intros H. apply String.app_inj in H. now apply (String.app_inj "/") in H.
Qed.

Lemma resource_baseurl_reaches_route_witness :
  sample_baseurl +:+ "/" +:+ "h-PNG" = "http://127.0.0.1:50021/_resources/h-PNG" /\
  "h-PNG" = "h-PNG".
Proof.
  destruct (resource_baseurl_reaches_route
              (mkRequest "http" "127.0.0.1:50021") "h-PNG" "h-PNG") as [E I].
  split; [exact E | exact (I eq_refl)].
Defined.

(** X3: the four query handlers catch nothing from the core manager: an
    exception raised while choosing the version or fetching the core is
    the handler's outcome, in the world it was raised in, whatever the
    metadata store is; when the version is absent or empty and
    [latest_version] raises, that is the outcome whatever [get_core]
    would do. *)
Theorem core_resolution_failure_propagates :
  (forall cm ms baseurl u fmt v w e w',
     core_of_query cm v w = (Raise e, w') ->
     speakers cm ms v w = (Raise e, w') /\
     singers cm ms v w = (Raise e, w') /\
     speaker_info cm ms baseurl u fmt v w = (Raise e, w') /\
     singer_info cm ms baseurl u fmt v w = (Raise e, w')) /\
  (forall lv gc ms baseurl u fmt v w e w',
     truthy v = false ->
     lv w = (Raise e, w') ->
     let cm := mkCoreManager lv gc in
     speakers cm ms v w = (Raise e, w') /\
     singers cm ms v w = (Raise e, w') /\
     speaker_info cm ms baseurl u fmt v w = (Raise e, w') /\
     singer_info cm ms baseurl u fmt v w = (Raise e, w')).
Proof.
  assert (Hall : forall cm ms baseurl u fmt v w e w',
     core_of_query cm v w = (Raise e, w') ->
     speakers cm ms v w = (Raise e, w') /\
     singers cm ms v w = (Raise e, w') /\
     speaker_info cm ms baseurl u fmt v w = (Raise e, w') /\
     singer_info cm ms baseurl u fmt v w = (Raise e, w')).
  { intros cm ms baseurl u fmt v w e w' Hq.
    rewrite speakers_steps, singers_steps, speaker_info_steps, singer_info_steps.
    rewrite !(bind_Raise _ _ _ _ _ Hq). auto. }
  split; [exact Hall|].
  intros lv gc ms baseurl u fmt v w e w' Hf Hlv cm. apply Hall.
  rewrite (core_of_query_falsy cm v w Hf). unfold cm; simpl.
  now apply bind_Raise.
Qed.

Lemma core_resolution_failure_propagates_witness :
  speaker_info sample_core_manager still_metas_store sample_baseurl "abc"
    (Some url) (Some "9.9.9") empty_world
    = (Raise UnknownVersion, mkWorld [CallGetCore "9.9.9"] ∅) /\
  singers (mkCoreManager (raise (HTTPException 500)) (fun _ => ret core_0_1))
    sample_metas_store (Some "") empty_world
    = (Raise (HTTPException 500), empty_world).
Proof.
  destruct core_resolution_failure_propagates as [H1 H2]. split.
  - exact (proj1 (proj2 (proj2
      (H1 sample_core_manager still_metas_store sample_baseurl "abc" (Some url)
          (Some "9.9.9") empty_world UnknownVersion
          (mkWorld [CallGetCore "9.9.9"] ∅) eq_refl)))).
  - exact (proj1 (proj2
      (H2 (raise (HTTPException 500)) (fun _ => ret core_0_1)
          sample_metas_store sample_baseurl "abc" None (Some "") empty_world
          (HTTPException 500) empty_world eq_refl eq_refl))).
Defined.

(** X4: with a non-empty [core_version] the handlers never ask
    [latest_version]: the core is the one [get_core] gives for that very
    string, and two core managers that differ only in [latest_version]
    give the same four handlers. *)
Theorem explicit_core_version_skips_latest :
  forall lv lv' gc ms baseurl u fmt v,
    v <> "" ->
    (forall w, core_of_query (mkCoreManager lv gc) (Some v) w = gc v w) /\
    speakers (mkCoreManager lv gc) ms (Some v)
      = speakers (mkCoreManager lv' gc) ms (Some v) /\
    singers (mkCoreManager lv gc) ms (Some v)
      = singers (mkCoreManager lv' gc) ms (Some v) /\
    speaker_info (mkCoreManager lv gc) ms baseurl u fmt (Some v)
      = speaker_info (mkCoreManager lv' gc) ms baseurl u fmt (Some v) /\
    singer_info (mkCoreManager lv gc) ms baseurl u fmt (Some v)
      = singer_info (mkCoreManager lv' gc) ms baseurl u fmt (Some v).
Proof.
  intros lv lv' gc ms baseurl u fmt v Hne.
  split; [intros w; now apply core_of_query_truthy|].
  unfold speakers, singers, speaker_info, singer_info, or_else, truthy.
  destruct (String.eqb_spec v "") as [->|_]; [contradiction|].
  repeat split; reflexivity.
Qed.

Lemma explicit_core_version_skips_latest_witness :
  speakers (mkCoreManager (raise (HTTPException 500)) (fun _ => ret core_0_1))
    still_metas_store (Some "0.1.0")
  = speakers still_core_manager still_metas_store (Some "0.1.0").
Proof.
  assert (Hne : "0.1.0" <> "") by discriminate.
  exact (proj1 (proj2
    (explicit_core_version_skips_latest (raise (HTTPException 500))
       (ret "0.1.0") (fun _ => ret core_0_1) still_metas_store sample_baseurl
       "abc" None "0.1.0" Hne))).
Defined.

(** X5: once the core is resolved, [speakers] is decided by
    [talk_characters] alone and [singers] by [sing_characters] alone: an
    exception the store raises is the handler's outcome, and a returned
    list is projected entry by entry, so the answer has as many speakers
    as the store returned characters; the world is the one the store
    left. *)
Theorem listing_follows_store :
  forall cm ms v w core w1,
    core_of_query cm v w = (Ok core, w1) ->
    (forall e w2,
       talk_characters ms (characters core) w1 = (Raise e, w2) ->
       speakers cm ms v w = (Raise e, w2)) /\
    (forall cs w2,
       talk_characters ms (characters core) w1 = (Ok cs, w2) ->
       speakers cm ms v w = (Ok (_characters_to_speakers cs), w2) /\
       length (_characters_to_speakers cs) = length cs) /\
    (forall e w2,
       sing_characters ms (characters core) w1 = (Raise e, w2) ->
       singers cm ms v w = (Raise e, w2)) /\
    (forall cs w2,
       sing_characters ms (characters core) w1 = (Ok cs, w2) ->
       singers cm ms v w = (Ok (_characters_to_speakers cs), w2) /\
       length (_characters_to_speakers cs) = length cs).
Proof.
  intros cm ms v w core w1 Hq.
  repeat split; intros;
    rewrite ?speakers_steps, ?singers_steps, ?(bind_Ok _ _ _ _ _ Hq);
    try (unfold _characters_to_speakers; apply length_map).
  - now apply bind_Raise.
  - erewrite bind_Ok by eassumption. reflexivity.
  - now apply bind_Raise.
  - erewrite bind_Ok by eassumption. reflexivity.
Qed.

Lemma listing_follows_store_witness :
  speakers still_core_manager still_metas_store None empty_world
    = (Ok (_characters_to_speakers [abc]), empty_world) /\
  length (_characters_to_speakers [abc]) = 1.
Proof.
  exact (proj1 (proj2
    (listing_follows_store still_core_manager still_metas_store None
       empty_world core_0_1 empty_world eq_refl)) [abc] empty_world eq_refl).
Defined.

(** X6: [resources] returns a response only for a hash the resource
    manager resolves: the response's path is the resolved path, the only
    header the handler sets on it is the cache directive, and the world is
    the one [resource_path] left. *)
Theorem resources_response_only_if_resolved :
  forall rm h w r w',
    resources rm h w = (Ok r, w') ->
    resource_path rm h w = (Ok (path r), w') /\
    headers r = [("Cache-Control", "max-age=2592000")].
Proof.
  intros rm h w r w'. rewrite resources_steps.
  destruct (resource_path rm h w) as [[p|[]] w1]; intros H;
    inversion H; subst; auto.
Qed.

Lemma resources_response_only_if_resolved_witness :
  resource_path spec_resource_manager "h-PNG"
    (mkWorld [] (<["h-PNG" := "abc/portrait.png"]> ∅))
  = (Ok "abc/portrait.png",
     mkWorld [CallResourcePath "h-PNG"] (<["h-PNG" := "abc/portrait.png"]> ∅)) /\
  [("Cache-Control", "max-age=2592000")] = [("Cache-Control", "max-age=2592000")].
Proof.
  refine (resources_response_only_if_resolved spec_resource_manager "h-PNG"
            (mkWorld [] (<["h-PNG" := "abc/portrait.png"]> ∅))
            {| path := "abc/portrait.png";
               headers := [("Cache-Control", "max-age=2592000")] |}
            (mkWorld [CallResourcePath "h-PNG"]
               (<["h-PNG" := "abc/portrait.png"]> ∅)) _).
  vm_compute. reflexivity.
Defined.

(** X7: [resources] never ends in [ResourceManagerError]; any other
    exception [resource_path] raises is passed on unchanged, not turned
    into a 404; and in every case the world after the handler is the
    world after [resource_path]. *)
Theorem resources_only_translates_manager_error :
  (forall rm h w, fst (resources rm h w) <> Raise ResourceManagerError) /\
  (forall rm h w e w',
     e <> ResourceManagerError ->
     resource_path rm h w = (Raise e, w') ->
     resources rm h w = (Raise e, w')) /\
  (forall rm h w, snd (resources rm h w) = snd (resource_path rm h w)).
Proof.
  split; [|split].
  - intros rm h w. rewrite resources_steps.
    destruct (resource_path rm h w) as [[p|[]] w1]; simpl; discriminate.
  - intros rm h w e w' Hne H. rewrite resources_steps, H.
    destruct e; try reflexivity. contradiction.
  - intros rm h w. rewrite resources_steps.
    destruct (resource_path rm h w) as [[p|[]] w1]; reflexivity.
Qed.

Lemma resources_only_translates_manager_error_witness :
  resources (mkResourceManager (fun _ => raise AssetUnreadable)) "h-PNG"
    empty_world
  = (Raise AssetUnreadable, empty_world).
Proof.
  assert (Hne : AssetUnreadable <> ResourceManagerError) by discriminate.
  exact (proj1 (proj2 resources_only_translates_manager_error)
           (mkResourceManager (fun _ => raise AssetUnreadable)) "h-PNG"
           empty_world AssetUnreadable empty_world Hne eq_refl).
Defined.

(** X8: the handlers change the world only through the collaborators: a
    property of the world that every method of the three collaborators
    keeps is kept by each of the five handlers, whether they return or
    raise. *)
Theorem handlers_keep_collaborator_invariants :
  forall (I : World -> Prop) cm ms rm,
    preserves I (latest_version cm) ->
    (forall v, preserves I (get_core cm v)) ->
    (forall cs, preserves I (talk_characters ms cs)) ->
    (forall cs, preserves I (sing_characters ms cs)) ->
    (forall u cap cs baseurl fmt,
       preserves I (character_info ms u cap cs baseurl fmt)) ->
    (forall h, preserves I (resource_path rm h)) ->
    forall baseurl u fmt v h,
      preserves I (speakers cm ms v) /\
      preserves I (singers cm ms v) /\
      preserves I (speaker_info cm ms baseurl u fmt v) /\
      preserves I (singer_info cm ms baseurl u fmt v) /\
      preserves I (resources rm h).
Proof.
  intros I cm ms rm Hl Hg Ht Hs Hc Hr baseurl u fmt v h.
  pose proof (preserves_core_of_query I cm v Hl Hg) as Hq.
  split; [|split; [|split; [|split]]].
  - eapply preserves_steps; [apply speakers_steps|].
    apply preserves_bind; [exact Hq|]. intros core.
    apply preserves_bind; [apply Ht|]. intros cs. apply preserves_ret.
  - eapply preserves_steps; [apply singers_steps|].
    apply preserves_bind; [exact Hq|]. intros core.
    apply preserves_bind; [apply Hs|]. intros cs. apply preserves_ret.
  - eapply preserves_steps; [apply speaker_info_steps|].
    apply preserves_bind; [exact Hq|]. intros core. apply Hc.
  - eapply preserves_steps; [apply singer_info_steps|].
    apply preserves_bind; [exact Hq|]. intros core. apply Hc.
  - unfold resources. apply preserves_bind; [|intros; apply preserves_ret].
    apply preserves_try_except; [apply Hr|].
    intros e. destruct e; apply preserves_raise.
Qed.

Lemma handlers_keep_collaborator_invariants_witness :
  preserves (fun w => hash_to_path w = ∅)
    (speakers still_core_manager still_metas_store None) /\
  preserves (fun w => hash_to_path w = ∅)
    (resources still_resource_manager "deadbeef").
Proof.
  destruct (handlers_keep_collaborator_invariants
              (fun w => hash_to_path w = ∅)
              still_core_manager still_metas_store still_resource_manager)
    with (baseurl := sample_baseurl) (u := "abc") (fmt := @None ResourceFormat)
         (v := @None string) (h := "deadbeef")
    as (H1 & _ & _ & _ & H5).
  - apply preserves_ret.
  - intros v. apply preserves_ret.
  - intros cs. apply preserves_ret.
  - intros cs. apply preserves_ret.
  - intros u cap cs baseurl fmt. apply preserves_raise.
  - intros h. apply preserves_raise.
  - split; [exact H1 | exact H5].
Defined.

Lemma SpeakerStyle_init_rejects n i raw :
  SpeakerStyle_init n i (Some raw) = None <-> ~ In raw StyleType_literals.
Proof.
  unfold SpeakerStyle_init, StyleType_validate, StyleType_literals. simpl.
  repeat match goal with
    | |- context [String.eqb raw ?s] =>
        destruct (String.eqb_spec raw s) as [->|?]
    end; intuition congruence.
Qed.

(** X9: a style is accepted exactly when its [type] is absent or one of
    the four literals: without a [type] it is built with type [talk],
    each literal is read back as the type it names, any other string is
    rejected, and the four literals are pairwise distinct. *)
Theorem SpeakerStyle_type_validation :
  (forall n i,
     SpeakerStyle_init n i None = Some (mkSpeakerStyle n i ST_talk)) /\
  (forall n i t,
     SpeakerStyle_init n i (Some (StyleType_literal t))
     = Some (mkSpeakerStyle n i t)) /\
  (forall n i raw,
     SpeakerStyle_init n i (Some raw) = None <-> ~ In raw StyleType_literals) /\
  (forall n i type,
     is_Some (SpeakerStyle_init n i type)
     <-> type = None \/ exists raw, type = Some raw /\ In raw StyleType_literals) /\
  (forall t t', StyleType_literal t = StyleType_literal t' -> t = t').
Proof.
  split; [reflexivity|]. split; [|split; [|split]].
  - intros n i []; reflexivity.
  - apply SpeakerStyle_init_rejects.
  - intros n i [raw|].
    + pose proof (SpeakerStyle_init_rejects n i raw) as Hrej.
      destruct (SpeakerStyle_init n i (Some raw)) as [s|] eqn:E; split.
      * intros _. right. exists raw. split; [reflexivity|].
        destruct (in_dec string_dec raw StyleType_literals) as [Hin|Hnot];
          [exact Hin|].
        apply Hrej in Hnot. discriminate Hnot.
      * intros _. eexists. reflexivity.
      * intros [s Hs]. discriminate Hs.
      * intros [H|(raw' & [= <-] & Hin)]; [discriminate H|].
        exfalso. apply (proj1 Hrej); [reflexivity | exact Hin].
    + split; [intros _; now left | intros _; eexists; reflexivity].
  - intros [] []; simpl; intros H; try reflexivity; discriminate H.
Qed.

Lemma SpeakerStyle_type_validation_witness :
  SpeakerStyle_init "Song" 7%Z (Some "Sing") = None /\
  is_Some (SpeakerStyle_init "Normal" 0%Z None) /\
  is_Some (SpeakerStyle_init "Song" 7%Z (Some "sing")) /\
  ST_frame_decode = ST_frame_decode.
Proof.
  destruct SpeakerStyle_type_validation as (_ & _ & Hrej & Hacc & Hinj).
  split; [|split; [|split]].
  - apply (Hrej "Song" 7%Z "Sing"). simpl.
    intros [H|[H|[H|[H|[]]]]]; discriminate H.
  - apply (Hacc "Normal" 0%Z None). now left.
  - apply (Hacc "Song" 7%Z (Some "sing")). right. exists "sing".
    split; [reflexivity | simpl; auto].
  - exact (Hinj ST_frame_decode ST_frame_decode eq_refl).
Defined.
